(** * display_7seg: fault registry and render cycle of the 7-segment display

    A shallow embedding of [display_node.py] (the ROS 2 node: the subscriber
    callback that stores the fault list and the background loop that renders
    it) and of the simulator half of [mydisplay.py] (the [Seg7x4] display, the
    fault-code table and [show_no_errors]).

    Python strings are modelled as [string]; a character is a code point
    below 256, so [str.lower] and [str.strip] are the Latin-1 restriction of
    Python's Unicode behaviour. List objects live in a heap indexed by
    locations, so that [list.copy] and aliasing are explicit. The two threads
    of the node are interleaved by a labelled step function. *)

From Stdlib Require Import ZArith QArith Ascii String DecimalString DecimalNat DecimalPos.
From stdpp Require Import gmap strings list.

Local Open Scope nat_scope.

(** ** Python string primitives *)

Module Py.

(** [len(s)] *)
Definition len (s : string) : nat := String.length s.

(** [fill * n] for a one-character [fill] *)
Fixpoint repeat_char (fill : ascii) (n : nat) : string :=
  match n with
  | O => ""
  | S n => String fill (repeat_char fill n)
  end.

(** [s[n:]] for [n >= 0] *)
Fixpoint drop (n : nat) (s : string) : string :=
  match n, s with
  | O, _ => s
  | S n, String _ s => drop n s
  | S _, EmptyString => ""
  end.

(** [s[:n]] for [n >= 0] *)
Fixpoint take (n : nat) (s : string) : string :=
  match n, s with
  | O, _ => ""
  | S n, String c s => String c (take n s)
  | S _, EmptyString => ""
  end.

(** [s[-k:]] for [k > 0]: the start index [len(s) - k] is clamped at 0 *)
Definition last_chars (k : nat) (s : string) : string :=
  drop (len s - k) s.

(** [s.rjust(width, fill)]: [s] itself when it is already wide enough,
    otherwise [fill] repeated in front of it *)
Definition rjust (width : nat) (fill : ascii) (s : string) : string :=
  repeat_char fill (width - len s) +:+ s.

(** [c.isspace()] on code points below 256 *)
Definition isspace (c : ascii) : bool :=
  let n := nat_of_ascii c in
  ((9 <=? n) && (n <=? 13)) || ((28 <=? n) && (n <=? 32))
  || (n =? 133) || (n =? 160).

(** [c.lower()] on code points below 256: A-Z and the Latin-1 capitals *)
Definition lower_char (c : ascii) : ascii :=
  let n := nat_of_ascii c in
  if ((65 <=? n) && (n <=? 90)) || ((192 <=? n) && (n <=? 214))
     || ((216 <=? n) && (n <=? 222))
  then ascii_of_nat (n + 32) else c.

(** [c.upper()] on ASCII letters, used only to state case-insensitivity *)
Definition upper_ascii_char (c : ascii) : ascii :=
  let n := nat_of_ascii c in
  if (97 <=? n) && (n <=? 122) then ascii_of_nat (n - 32) else c.

Fixpoint map_chars (f : ascii → ascii) (s : string) : string :=
  match s with
  | EmptyString => ""
  | String c s => String (f c) (map_chars f s)
  end.

(** [s.lower()] *)
Definition lower (s : string) : string := map_chars lower_char s.

Definition upper_ascii (s : string) : string := map_chars upper_ascii_char s.

(** [s.lstrip()] *)
Fixpoint lstrip (s : string) : string :=
  match s with
  | EmptyString => ""
  | String c s' => if isspace c then lstrip s' else s
  end.

(** [s.rstrip()] *)
Fixpoint rstrip (s : string) : string :=
  match s with
  | EmptyString => ""
  | String c s' =>
      match rstrip s' with
      | EmptyString => if isspace c then "" else String c ""
      | r => String c r
      end
  end.

(** [s.strip()] *)
Definition strip (s : string) : string := rstrip (lstrip s).

(** [s.split(sep)] for a one-character separator: the result is never
    empty, and [n] separators give [n + 1] pieces *)
Fixpoint split (sep : ascii) (s : string) : list string :=
  match s with
  | EmptyString => [""]
  | String c s' =>
      if decide (c = sep) then "" :: split sep s'
      else match split sep s' with
           | piece :: rest => String c piece :: rest
           | [] => [String c ""]
           end
  end.

(** Python values that reach [str(...)] in this program *)
Inductive value :=
| VStr (s : string)
| VInt (z : Z).

(** [str(v)] *)
Definition str (v : value) : string :=
  match v with
  | VStr s => s
  | VInt z => NilZero.string_of_int (Z.to_int z)
  end.

(** [s[0]]: indexing the empty string raises IndexError, which is [None] *)
Definition first_char (s : string) : option string :=
  match s with
  | EmptyString => None
  | String c _ => Some (String c "")
  end.

(** truthiness of a string: [if s] *)
Definition truthy (s : string) : bool :=
  match s with EmptyString => false | _ => true end.

End Py.

(** ** mydisplay.py: the simulated display and the fault-code table *)

Inductive colour := red | gray20.

Global Instance colour_eq_dec : EqDecision colour.
Proof. solve_decision. Defined.

(** keys of [SEGMENTS], in insertion order *)
Definition SEGMENTS : list ascii :=
  ["a"; "b"; "c"; "d"; "e"; "f"; "g"]%char.

Definition DIGITS : gmap ascii string :=
  list_to_map
    [("0"%char, "abcdef"); ("1"%char, "bc"); ("2"%char, "abged");
     ("3"%char, "abgcd"); ("4"%char, "fgbc"); ("5"%char, "afgcd");
     ("6"%char, "afgcde"); ("7"%char, "abc"); ("8"%char, "abcdefg");
     ("9"%char, "abcfgd"); (" "%char, ""); ("-"%char, "g")].

(** [name in active] for a one-character [name] *)
Fixpoint char_in (name : ascii) (active : string) : bool :=
  match active with
  | EmptyString => false
  | String c rest => bool_decide (c = name) || char_in name rest
  end.

(** The canvas of one digit: the fill colour of each segment polygon and of
    the decimal point. *)
Record SevenSegDigit := {
  segs : gmap ascii colour;
  dp : colour
}.

(** [SevenSegDigit.__init__]: every segment and the point are created dark *)
Definition SevenSegDigit_init : SevenSegDigit :=
  {| segs := list_to_map ((λ name, (name, gray20)) <$> SEGMENTS);
     dp := gray20 |}.

(** [SevenSegDigit.set_char] *)
Definition set_char (char : ascii) (show_dp : bool) (d : SevenSegDigit)
  : SevenSegDigit :=
  let active := default "" (DIGITS !! char) in
  {| segs := map_imap
               (λ name _, Some (if char_in name active then red else gray20))
               (segs d);
     dp := if show_dp then red else gray20 |}.

Record Seg7x4 := {
  digits : list SevenSegDigit;
  colon_fill : colour;
  _colon : bool
}.

(** [Seg7x4.__init__] *)
Definition Seg7x4_init : Seg7x4 :=
  {| digits := replicate 4 SevenSegDigit_init;
     colon_fill := gray20;
     _colon := false |}.

(** the normalisation on the first line of [Seg7x4.print] *)
Definition print_text (text : Py.value) : string :=
  Py.last_chars 4 (Py.rjust 4 "0" (Py.str text)).

(** the [for i, ch in enumerate(text)] loop of [Seg7x4.print]; indexing
    [self.digits[i]] past the end raises, which is [None] here *)
Fixpoint print_loop (i : nat) (text : string) (ds : list SevenSegDigit)
  : option (list SevenSegDigit) :=
  match text with
  | EmptyString => Some ds
  | String ch rest =>
      d ← ds !! i;
      print_loop (S i) rest (<[i := set_char ch false d]> ds)
  end.

(** [Seg7x4.print] *)
Definition print (text : Py.value) (display : Seg7x4) : option Seg7x4 :=
  ds ← print_loop 0 (print_text text) (digits display);
  Some {| digits := ds;
          colon_fill := colon_fill display;
          _colon := _colon display |}.

(** the setter of the [colon] property *)
Definition set_colon (state : bool) (display : Seg7x4) : Seg7x4 :=
  {| digits := digits display;
     colon_fill := if state then red else gray20;
     _colon := state |}.

Definition TEXT_TO_NUMERIC_ERROR_items : list (string * string) :=
  [("lidar_com", "101"); ("lidar_fail", "201");
   ("emi_com", "102"); ("emi_fail", "202");
   ("imu_com", "103"); ("imu_fail", "203");
   ("raspberry_com", "104"); ("raspberry_fail", "204");
   ("camera_com", "105"); ("camera_fail", "205");
   ("ip_mesh_com", "106"); ("ip_mesh_fail", "206");
   ("gps_com", "107"); ("gps_fail", "207");
   ("general_fail", "999")].

Definition TEXT_TO_NUMERIC_ERROR : gmap string string :=
  list_to_map TEXT_TO_NUMERIC_ERROR_items.

(** [show_no_errors] *)
Definition show_no_errors (display : Seg7x4) : option Seg7x4 :=
  display ← print (Py.VStr "0000") display;
  Some (set_colon false display).

(** What each digit of a display shows: the names of its red segments, in
    the order of [SEGMENTS]. *)
Definition lit_segments (d : SevenSegDigit) : list ascii :=
  filter (λ name, segs d !! name = Some red) SEGMENTS.

Definition shown (display : Seg7x4) : list (list ascii) :=
  lit_segments <$> digits display.

(** ** display_node.py: the node state *)

(** List objects are heap cells; a variable holding a list holds a location. *)
Definition loc := positive.

Abbreviation heap := (gmap loc (list string)).

(** the elements of the list object at [l] *)
Definition deref (h : heap) (l : loc) : list string := default [] (h !! l).

(** a list display or comprehension: a new list object *)
Definition list_new (xs : list string) (h : heap) : loc * heap :=
  let l := fresh (dom h) in (l, <[l := xs]> h).

(** [l.copy()]: a new list object with the elements of the old one *)
Definition list_copy (src : loc) (h : heap) : loc * heap :=
  list_new (deref h src) h.

(** What the program does to the outside: calls on the display and sleeps. *)
Inductive event :=
| EPrint (text : string)     (* display.print(text) *)
| EColon (state : bool)      (* display.colon = state *)
| ESleep (secs : Q).         (* time.sleep(secs) *)

Definition loop_start_code : string := "---".
Definition loop_start_delay : Q := 3 # 10.
Definition error_delay : Q := 1.

(** Control points of [display_loop], with the locals that are live there. *)
Inductive display_pc :=
| DAcquire                                       (* line 60, before the lock is taken *)
| DCopy                                          (* line 61, lock held *)
| DRelease (errors : loc)                        (* end of the with block *)
| DTest (errors : loc)                           (* line 63 *)
| DFor (errors : loc) (num_errors : string) (i : nat)   (* line 77, next index *)
| DRaised.                                       (* the thread died on an exception *)

(** Control points of [listener_callback]. *)
Inductive listener_pc :=
| LIdle                                          (* no callback running *)
| LAcquire (errors : loc)                        (* line 47 *)
| LAssign (errors : loc)                         (* line 48, lock held *)
| LRelease.                                      (* end of the with block *)

(** Control points of the thread that runs [DisplayNode.__init__] and then
    hands the node to [rclpy.spin]. *)
Inductive main_pc :=
| MInit                                          (* line 41, display thread started *)
| MSpin                                          (* node constructed, callbacks may run *)
| MRaised.

Record Node := {
  store : heap;
  lock : bool;                  (* self.lock is held *)
  active_errors : loc;          (* self.active_errors *)
  display : Seg7x4;             (* mydisplay.display *)
  calls : list event;           (* oldest first *)
  display_thread : display_pc;
  listener : listener_pc;
  main_thread : main_pc
}.

Global Instance display_pc_eq_dec : EqDecision display_pc.
Proof. solve_decision. Defined.
Global Instance listener_pc_eq_dec : EqDecision listener_pc.
Proof. solve_decision. Defined.
Global Instance main_pc_eq_dec : EqDecision main_pc.
Proof. solve_decision. Defined.

(** The state when [__init__] has started the display thread (line 38):
    the lock is free and [active_errors] is a new empty list. *)
Definition Node_init : Node :=
  let '(l, h) := list_new [] ∅ in
  {| store := h; lock := false; active_errors := l;
     display := Seg7x4_init; calls := [];
     display_thread := DAcquire; listener := LIdle; main_thread := MInit |}.

(** lines 45-46 of [listener_callback] *)
Definition parse_errors (data : string) : list string :=
  let text := Py.strip data in
  Py.strip <$> List.filter (λ e, Py.truthy (Py.strip e)) (Py.split "," text).

(** line 78 *)
Definition lookup_code (code_text : string) : string :=
  default "999" (TEXT_TO_NUMERIC_ERROR !! Py.lower code_text).

(** line 79 *)
Definition format_code (code : Py.value) : string :=
  Py.last_chars 3 (Py.rjust 3 "0" (Py.str code)).

(** line 69 *)
Definition count_digit (errors : list string) : string :=
  Py.take 1 (Py.str (Py.VInt (Z.of_nat (length errors)))).

(** *** Field updates *)

Definition set_store (h : heap) (σ : Node) : Node :=
  {| store := h; lock := lock σ; active_errors := active_errors σ;
     display := display σ; calls := calls σ;
     display_thread := display_thread σ; listener := listener σ;
     main_thread := main_thread σ |}.

Definition set_lock (b : bool) (σ : Node) : Node :=
  {| store := store σ; lock := b; active_errors := active_errors σ;
     display := display σ; calls := calls σ;
     display_thread := display_thread σ; listener := listener σ;
     main_thread := main_thread σ |}.

Definition set_active_errors (l : loc) (σ : Node) : Node :=
  {| store := store σ; lock := lock σ; active_errors := l;
     display := display σ; calls := calls σ;
     display_thread := display_thread σ; listener := listener σ;
     main_thread := main_thread σ |}.

(** the display after some calls on it, and the calls appended to the log *)
Definition rendered (d : Seg7x4) (evs : list event) (σ : Node) : Node :=
  {| store := store σ; lock := lock σ; active_errors := active_errors σ;
     display := d; calls := calls σ ++ evs;
     display_thread := display_thread σ; listener := listener σ;
     main_thread := main_thread σ |}.

Definition set_display_thread (pc : display_pc) (σ : Node) : Node :=
  {| store := store σ; lock := lock σ; active_errors := active_errors σ;
     display := display σ; calls := calls σ;
     display_thread := pc; listener := listener σ;
     main_thread := main_thread σ |}.

Definition set_listener (pc : listener_pc) (σ : Node) : Node :=
  {| store := store σ; lock := lock σ; active_errors := active_errors σ;
     display := display σ; calls := calls σ;
     display_thread := display_thread σ; listener := pc;
     main_thread := main_thread σ |}.

Definition set_main_thread (pc : main_pc) (σ : Node) : Node :=
  {| store := store σ; lock := lock σ; active_errors := active_errors σ;
     display := display σ; calls := calls σ;
     display_thread := display_thread σ; listener := listener σ;
     main_thread := pc |}.

(** ** The threads, one atomic action at a time

    A step is [None] when the thread cannot move: it waits for the lock, it
    has ended, or there is nothing for it to do. An exception ends the
    thread that raised it. *)

(** One action of [display_loop]. *)
Definition display_step (σ : Node) : option Node :=
  match display_thread σ with
  | DAcquire =>
      if lock σ then None
      else Some (set_display_thread DCopy (set_lock true σ))
  | DCopy =>
      let '(errors, h) := list_copy (active_errors σ) (store σ) in
      Some (set_display_thread (DRelease errors) (set_store h σ))
  | DRelease errors =>
      Some (set_display_thread (DTest errors) (set_lock false σ))
  | DTest errors =>
      let xs := deref (store σ) errors in
      match xs with
      | [] =>
          (* lines 65-67 *)
          match show_no_errors (display σ) with
          | Some d =>
              Some (set_display_thread DAcquire
                      (rendered d [EPrint "0000"; EColon false;
                                   ESleep error_delay] σ))
          | None => Some (set_display_thread DRaised σ)
          end
      | _ :: _ =>
          (* lines 69-74 *)
          let num_errors := count_digit xs in
          let text := num_errors +:+ loop_start_code in
          match print (Py.VStr text) (display σ) with
          | Some d =>
              Some (set_display_thread (DFor errors num_errors 0)
                      (rendered (set_colon false d)
                         [EPrint text; EColon false;
                          ESleep loop_start_delay] σ))
          | None => Some (set_display_thread DRaised σ)
          end
      end
  | DFor errors num_errors i =>
      match deref (store σ) errors !! i with
      | Some code_text =>
          (* lines 78-82 *)
          let code := lookup_code code_text in
          let code_str := format_code (Py.VStr code) in
          let text := num_errors +:+ code_str in
          match print (Py.VStr text) (display σ) with
          | Some d =>
              Some (set_display_thread (DFor errors num_errors (S i))
                      (rendered (set_colon false d)
                         [EPrint text; EColon false; ESleep error_delay] σ))
          | None => Some (set_display_thread DRaised σ)
          end
      | None =>
          (* the list is exhausted: back to [while True] *)
          Some (set_display_thread DAcquire σ)
      end
  | DRaised => None
  end.

(** The executor takes a message off the subscription and enters
    [listener_callback] with it (lines 45-46). Callbacks run one at a time,
    and only once the node has been handed to [rclpy.spin]. *)
Definition deliver (data : string) (σ : Node) : option Node :=
  match main_thread σ, listener σ with
  | MSpin, LIdle =>
      let '(errors, h) := list_new (parse_errors data) (store σ) in
      Some (set_listener (LAcquire errors) (set_store h σ))
  | _, _ => None
  end.

(** One action of a running [listener_callback] (lines 47-48). *)
Definition listener_step (σ : Node) : option Node :=
  match listener σ with
  | LIdle => None
  | LAcquire errors =>
      if lock σ then None
      else Some (set_listener (LAssign errors) (set_lock true σ))
  | LAssign errors =>
      let '(l, h) := list_copy errors (store σ) in
      Some (set_listener LRelease (set_active_errors l (set_store h σ)))
  | LRelease =>
      Some (set_listener LIdle (set_lock false σ))
  end.

(** Line 41: [__init__] shows the no-error frame after it has started the
    display thread. *)
Definition main_step (σ : Node) : option Node :=
  match main_thread σ with
  | MInit =>
      match show_no_errors (display σ) with
      | Some d =>
          Some (set_main_thread MSpin
                  (rendered d [EPrint "0000"; EColon false] σ))
      | None => Some (set_main_thread MRaised σ)
      end
  | MSpin | MRaised => None
  end.

Inductive label :=
| Main
| Display
| Deliver (data : string)
| Listener.

Global Instance label_eq_dec : EqDecision label.
Proof. solve_decision. Defined.

Definition step (a : label) (σ : Node) : option Node :=
  match a with
  | Main => main_step σ
  | Display => display_step σ
  | Deliver data => deliver data σ
  | Listener => listener_step σ
  end.

(** A schedule is the sequence of actions taken, in order. *)
Fixpoint run (sched : list label) (σ : Node) : option Node :=
  match sched with
  | [] => Some σ
  | a :: sched => σ' ← step a σ; run sched σ'
  end.

Definition reachable (σ : Node) : Prop :=
  ∃ sched, run sched Node_init = Some σ.

(** ** Reading a display *)

(** the characters of a string, in order *)
Definition chars (s : string) : list ascii := list_ascii_of_string s.

(** the segments [set_char] lights for a character, in the order of
    [SEGMENTS]; a character outside [DIGITS] lights none *)
Definition glyph (ch : ascii) : list ascii :=
  filter (λ name, Is_true (char_in name (default "" (DIGITS !! ch)))) SEGMENTS.

(** A digit has the seven segment polygons [__init__] created, and a display
    has four such digits. *)
Definition digit_ok (d : SevenSegDigit) : Prop :=
  ∀ name, name ∈ SEGMENTS → is_Some (segs d !! name).

Definition Seg7x4_ok (display : Seg7x4) : Prop :=
  length (digits display) = 4 ∧ Forall digit_ok (digits display).

(** ** Reading a node state *)

(** the list object the display thread iterates over, once it has one *)
Definition snapshot_of (pc : display_pc) : option loc :=
  match pc with
  | DRelease errors | DTest errors | DFor errors _ _ => Some errors
  | DAcquire | DCopy | DRaised => None
  end.

(** the local [errors] of a running callback *)
Definition listener_arg (pc : listener_pc) : option loc :=
  match pc with
  | LAcquire errors | LAssign errors => Some errors
  | LIdle | LRelease => None
  end.

(** inside [with self.lock] *)
Definition display_in_lock (pc : display_pc) : bool :=
  match pc with
  | DCopy | DRelease _ => true
  | _ => false
  end.

Definition listener_in_lock (pc : listener_pc) : bool :=
  match pc with
  | LAssign _ | LRelease => true
  | _ => false
  end.

(** A frame is one [print] followed by [colon = False], and the sleep that
    holds it, if any. *)
Definition frame_calls (f : string * option Q) : list event :=
  EPrint f.1 :: EColon false :: option_list (ESleep <$> f.2).

(** the calls of one pass of the loop body over a snapshot (lines 63-82) *)
Definition fault_frame (num_errors code_text : string) : string * option Q :=
  (num_errors +:+ format_code (Py.VStr (lookup_code code_text)),
   Some error_delay).

Definition cycle_frames (xs : list string) : list (string * option Q) :=
  match xs with
  | [] => [("0000", Some error_delay)]
  | _ :: _ =>
      (count_digit xs +:+ loop_start_code, Some loop_start_delay)
      :: (fault_frame (count_digit xs) <$> xs)
  end.

(** What holds in every state the node can be in. *)
Record node_inv (σ : Node) : Prop := {
  inv_display : Seg7x4_ok (display σ);
  inv_colon : _colon (display σ) = false ∧ colon_fill (display σ) = gray20;
  inv_calls : ∃ fs, calls σ = fs ≫= frame_calls;
  inv_active : is_Some (store σ !! active_errors σ);
  inv_snapshot :
    ∀ e, snapshot_of (display_thread σ) = Some e → is_Some (store σ !! e);
  inv_listener :
    ∀ e, listener_arg (listener σ) = Some e → is_Some (store σ !! e);
  inv_num :
    ∀ e num i, display_thread σ = DFor e num i →
               deref (store σ) e ≠ [] ∧ num = count_digit (deref (store σ) e);
  inv_alive : display_thread σ ≠ DRaised ∧ main_thread σ ≠ MRaised;
  inv_lock :
    lock σ = display_in_lock (display_thread σ)
             || listener_in_lock (listener σ);
  inv_mutex :
    ¬ (display_in_lock (display_thread σ)
       ∧ listener_in_lock (listener σ));
  inv_main :
    main_thread σ = MInit →
    listener σ = LIdle ∧ ∀ l xs, store σ !! l = Some xs → xs = []
}.

(** ** mydisplay.py: the loops that show errors without the node *)

(** A display and the log of the calls made on it. *)
Definition renderer : Type := Seg7x4 * list event.

(** The three statements every loop body repeats: [display.print(text)],
    [display.colon = False], [time.sleep(secs)]. *)
Definition show_frame (text : string) (secs : Q) (r : renderer)
  : option renderer :=
  d ← print (Py.VStr text) r.1;
  Some (set_colon false d, r.2 ++ [EPrint text; EColon false; ESleep secs]).

(** the first [n] iterations of a [while True] loop *)
Fixpoint iterations (n : nat) (body : renderer → option renderer)
    (r : renderer) : option renderer :=
  match n with
  | O => Some r
  | S n => r' ← body r; iterations n body r'
  end.

(** lines 145-146 of [show_error_loop]: what the loop closes over *)
Definition show_error_loop_setup (error_number : Py.value)
    (error_text : string) : option (string * string) :=
  error_number ← Py.first_char (Py.str error_number);
  Some (error_number, lookup_code error_text).

(** [show_error_loop], observed for the first [n] iterations of its thread;
    [None] when the call raises before the thread is started *)
Definition show_error_loop (n : nat) (error_number : Py.value)
    (error_text : string) (display : Seg7x4) (delay : Q) : option renderer :=
  '(error_number, code) ← show_error_loop_setup error_number error_text;
  iterations n (show_frame (error_number +:+ code) delay) (display, []).

(** lines 170-172 of [show_multiple_text_errors] *)
Definition numeric_codes (error_text_list : list string) : list string :=
  lookup_code <$> error_text_list.

(** the [for code in numeric_codes] loop, lines 184-188 *)
Fixpoint show_codes (num_errors : string) (delay : Q) (codes : list string)
    (r : renderer) : option renderer :=
  match codes with
  | [] => Some r
  | code :: codes =>
      let code_str := format_code (Py.VStr code) in
      r' ← show_frame (num_errors +:+ code_str) delay r;
      show_codes num_errors delay codes r'
  end.

(** one iteration of the [while True] of [show_multiple_text_errors],
    lines 178-188 *)
Definition show_multiple_pass (num_errors : string) (codes : list string)
    (delay : Q) (loop_start_code : string) (loop_start_delay : Q)
    (r : renderer) : option renderer :=
  r' ← show_frame (num_errors +:+ loop_start_code) loop_start_delay r;
  show_codes num_errors delay codes r'.

(** [show_multiple_text_errors], observed for the first [n] iterations of
    its thread *)
Definition show_multiple_text_errors (n : nat) (error_text_list : list string)
    (display : Seg7x4) (delay : Q) (loop_start_code : string)
    (loop_start_delay : Q) : option renderer :=
  let codes := numeric_codes error_text_list in
  let num_errors :=
    Py.take 1 (Py.str (Py.VInt (Z.of_nat (length codes)))) in
  iterations n
    (show_multiple_pass num_errors codes delay loop_start_code
       loop_start_delay)
    (display, []).

(** the frames of one iteration of [show_multiple_text_errors] *)
Definition multiple_frames (error_text_list : list string) (delay : Q)
    (loop_start_code : string) (loop_start_delay : Q)
  : list (string * option Q) :=
  let num_errors := count_digit error_text_list in
  (num_errors +:+ loop_start_code, Some loop_start_delay)
  :: ((λ code_text,
         (num_errors +:+ format_code (Py.VStr (lookup_code code_text)),
          Some delay)) <$> error_text_list).

(** the number of actions of the display thread from line 63 back to the
    top of its loop *)
Definition cycle_steps (xs : list string) : nat :=
  match xs with
  | [] => 1
  | _ :: _ => length xs + 2
  end.

(** * Properties *)

(** ** The model on concrete inputs *)

Example str_ten : Py.str (Py.VInt 10) = "10".
Proof. reflexivity. Qed.

Example str_negative : Py.str (Py.VInt (-5)) = "-5".
Proof. reflexivity. Qed.

Example split_example : Py.split "," "a,,b" = ["a"; ""; "b"].
Proof. reflexivity. Qed.

Example split_empty : Py.split "," "" = [""] ∧ Py.split "," "," = [""; ""].
Proof. split; reflexivity. Qed.

Example strip_example : Py.strip "  gps fail " = "gps fail".
Proof. reflexivity. Qed.

Example rjust_example : Py.rjust 2 "0" "abc" = "abc" ∧ Py.rjust 3 "0" "1" = "001".
Proof. split; reflexivity. Qed.

Example last_chars_example :
  Py.last_chars 3 "12345" = "345" ∧ Py.last_chars 3 "12" = "12".
Proof. split; reflexivity. Qed.

Example show_no_errors_example :
  shown <$> show_no_errors Seg7x4_init
  = Some (replicate 4 ["a"; "b"; "c"; "d"; "e"; "f"]%char).
Proof. vm_compute. reflexivity. Qed.

Example parse_errors_example :
  parse_errors "lidar_fail, gps_fail" = ["lidar_fail"; "gps_fail"].
Proof. reflexivity. Qed.

Example count_digit_example : count_digit (replicate 12 "x") = "1".
Proof. reflexivity. Qed.


(** ** Strings *)

Section string_facts.
Implicit Types (s t : string) (c : ascii) (n k : nat).

Lemma len_app s t : Py.len (s +:+ t) = Py.len s + Py.len t.
Proof. induction s as [|c s IH]; simpl; [done|]. by rewrite <- IH. Qed.

Lemma len_repeat_char c n : Py.len (Py.repeat_char c n) = n.
Proof. induction n as [|n IH]; simpl; [done|]. by f_equal. Qed.

Lemma len_drop n s : Py.len (Py.drop n s) = Py.len s - n.
Proof.
  revert s. induction n as [|n IH]; intros [|c s]; simpl; auto.
Qed.

Lemma len_take n s : Py.len (Py.take n s) = n `min` Py.len s.
Proof.
  revert s. induction n as [|n IH]; intros [|c s]; simpl; auto.
Qed.

Lemma drop_0 s : Py.drop 0 s = s.
Proof. done. Qed.

Lemma drop_app_len s t : Py.drop (Py.len s) (s +:+ t) = t.
Proof. induction s as [|c s IH]; simpl; [apply drop_0|]. apply IH. Qed.

Lemma drop_app_ge n s t :
  Py.drop (Py.len s + n) (s +:+ t) = Py.drop n t.
Proof. induction s as [|c s IH]; simpl; [done|]. apply IH. Qed.

Lemma app_empty_r s : s +:+ "" = s.
Proof. induction s as [|c s IH]; [done|]. change ((String c s) +:+ "") with (String c (s +:+ "")). by rewrite IH. Qed.

Lemma len_rjust k c s : Py.len (Py.rjust k c s) = k `max` Py.len s.
Proof. unfold Py.rjust. rewrite len_app, len_repeat_char. lia. Qed.

(** Justifying to a width and cutting to the same width gives exactly
    that many characters. *)
Lemma len_last_chars_rjust k c s :
  Py.len (Py.last_chars k (Py.rjust k c s)) = k.
Proof. unfold Py.last_chars. rewrite len_drop, len_rjust. lia. Qed.

(** Both cases at once: the padding is empty for a long [s], and nothing
    is dropped from a short one. *)
Lemma last_chars_rjust k c s :
  Py.last_chars k (Py.rjust k c s)
  = Py.repeat_char c (k - Py.len s) +:+ Py.drop (Py.len s - k) s.
Proof.
  unfold Py.last_chars. rewrite len_rjust. unfold Py.rjust.
  destruct (decide (Py.len s ≤ k)) as [Hle|Hgt].
  - replace (k `max` Py.len s - k) with 0 by lia.
    replace (Py.len s - k) with 0 by lia. done.
  - replace (k - Py.len s) with 0 by lia.
    replace (k `max` Py.len s - k) with (Py.len "" + (Py.len s - k))
      by (simpl; lia).
    simpl Py.repeat_char. apply drop_app_ge.
Qed.

Lemma last_chars_exact k s : Py.len s = k → Py.last_chars k s = s.
Proof. intros <-. unfold Py.last_chars. by rewrite Nat.sub_diag. Qed.

Lemma rjust_exact k c s : k ≤ Py.len s → Py.rjust k c s = s.
Proof. intros Hle. unfold Py.rjust. by replace (k - Py.len s) with 0 by lia. Qed.

End string_facts.

(** ** The display *)

Lemma len_chars (s : string) : length (chars s) = Py.len s.
Proof. induction s as [|c s IH]; simpl; [done|]. by f_equal. Qed.

Lemma SevenSegDigit_init_ok : digit_ok SevenSegDigit_init.
Proof.
  intros name Hin. unfold SEGMENTS in Hin.
  repeat (apply elem_of_cons in Hin as [->|Hin]; [by eexists|]).
  by apply elem_of_nil in Hin.
Qed.

Lemma Seg7x4_init_ok : Seg7x4_ok Seg7x4_init.
Proof.
  split; [done|]. apply Forall_replicate, SevenSegDigit_init_ok.
Qed.

Lemma set_char_ok ch b d : digit_ok d → digit_ok (set_char ch b d).
Proof.
  intros Hd name Hin. destruct (Hd name Hin) as [x Hx]. simpl.
  rewrite map_lookup_imap, Hx. by eexists.
Qed.

(** After [set_char ch] a digit shows the glyph of [ch], whatever it
    showed before. *)
Lemma lit_segments_set_char ch b d :
  digit_ok d → lit_segments (set_char ch b d) = glyph ch.
Proof.
  intros Hd. unfold lit_segments, glyph.
  assert (Hall : Forall (λ name, is_Some (segs d !! name)) SEGMENTS)
    by (apply Forall_forall; exact Hd).
  induction Hall as [|name names [x Hx] _ IH]; [done|].
  rewrite !filter_cons, IH. simpl segs.
  rewrite map_lookup_imap, Hx. simpl.
  destruct (char_in name _); repeat case_decide; naive_solver.
Qed.

Lemma set_colon_ok b d : Seg7x4_ok d → Seg7x4_ok (set_colon b d).
Proof. done. Qed.

(** The loop of [print] never indexes past the last digit when the text
    fits, and digit [i + j] ends up showing character [j] of the text. *)
Lemma print_loop_spec (text : string) :
  ∀ (i : nat) (ds : list SevenSegDigit),
    i + Py.len text ≤ length ds → Forall digit_ok ds →
    ∃ ds', print_loop i text ds = Some ds'
           ∧ length ds' = length ds
           ∧ Forall digit_ok ds'
           ∧ (∀ j, j < i → ds' !! j = ds !! j)
           ∧ (∀ j ch, chars text !! j = Some ch →
                      lit_segments <$> ds' !! (i + j) = Some (glyph ch)).
Proof.
  induction text as [|ch rest IH]; intros i ds Hlen Hok; simpl in *.
  { exists ds. repeat split; try done. }
  destruct (lookup_lt_is_Some_2 ds i) as [d Hd]; [lia|].
  rewrite Hd. simpl.
  assert (Hdok : digit_ok d).
  { eapply Forall_lookup_1; eauto. }
  destruct (IH (S i) (<[i := set_char ch false d]> ds))
    as (ds' & Hrun & Hlen' & Hok' & Hbefore & Hafter).
  { rewrite length_insert. lia. }
  { apply Forall_insert; [done|]. by apply set_char_ok. }
  exists ds'. rewrite length_insert in Hlen'.
  split; [done|]. split; [done|]. split; [done|]. split.
  - intros j Hj. rewrite Hbefore by lia. apply list_lookup_insert_ne. lia.
  - intros [|j] c Hc; simpl in Hc.
    + injection Hc as <-. rewrite Nat.add_0_r, Hbefore by lia.
      rewrite list_lookup_insert_eq by lia. simpl.
      by rewrite lit_segments_set_char.
    + replace (i + S j) with (S i + j) by lia. by apply Hafter.
Qed.

(** [Seg7x4.print] on a four-digit display: it returns, the display then
    shows the glyphs of the four characters of the normalised text, and the
    colon is not touched. *)
Lemma print_spec (text : Py.value) (d : Seg7x4) :
  Seg7x4_ok d →
  ∃ d', print text d = Some d'
        ∧ Seg7x4_ok d'
        ∧ shown d' = glyph <$> chars (print_text text)
        ∧ _colon d' = _colon d ∧ colon_fill d' = colon_fill d.
Proof.
  intros [Hlen Hok]. unfold print.
  assert (Hfour : Py.len (print_text text) = 4)
    by apply len_last_chars_rjust.
  destruct (print_loop_spec (print_text text) 0 (digits d))
    as (ds' & Hrun & Hlen' & Hok' & _ & Hshow); [lia|done|].
  rewrite Hrun. simpl. eexists. split; [done|].
  split; [split; simpl; [congruence|done]|].
  split; [|done].
  unfold shown. simpl. apply list_eq. intros j.
  rewrite !list_lookup_fmap.
  destruct (chars (print_text text) !! j) as [ch|] eqn:Hch; simpl.
  - apply (Hshow j ch Hch).
  - apply lookup_ge_None in Hch. rewrite len_chars in Hch.
    rewrite (proj2 (lookup_ge_None ds' j)); [done|lia].
Qed.

(** C10. [Seg7x4.print] normalises whatever it is given: the argument goes
    through [str], is right-justified to width 4 with the character 0 (so
    a short text gets zeros, not spaces, in front) and only its last 4
    characters are kept. The text is therefore always exactly 4 characters
    long, the call never runs past the fourth digit, and each digit shows the
    glyph of its character. *)
Theorem print_normalises (text : Py.value) (d : Seg7x4) :
  Seg7x4_ok d →
  let s := Py.str text in
  Py.len (print_text text) = 4
  ∧ print_text text
    = Py.repeat_char "0" (4 - Py.len s) +:+ Py.drop (Py.len s - 4) s
  ∧ ∃ d', print text d = Some d'
          ∧ shown d' = glyph <$> chars (print_text text)
          ∧ _colon d' = _colon d.
Proof.
  intros Hd s. split; [apply len_last_chars_rjust|].
  split; [apply last_chars_rjust|].
  destruct (print_spec text d Hd) as (d' & Hp & _ & Hs & Hc & _).
  by exists d'.
Qed.

Lemma print_normalises_witness :
  Seg7x4_ok Seg7x4_init
  ∧ Py.len (print_text (Py.VInt 7)) = 4
  ∧ print_text (Py.VInt 7) = "0007"
  ∧ ∃ d', print (Py.VInt 7) Seg7x4_init = Some d'
          ∧ shown d' = glyph <$> chars "0007"
          ∧ _colon d' = false.
Proof.
  split; [exact Seg7x4_init_ok|].
  exact (print_normalises (Py.VInt 7) Seg7x4_init Seg7x4_init_ok).
Defined.

Example print_text_examples :
  print_text (Py.VStr "7") = "0007"
  ∧ print_text (Py.VStr "") = "0000"
  ∧ print_text (Py.VStr "2---") = "2---"
  ∧ print_text (Py.VStr "123456") = "3456"
  ∧ print_text (Py.VInt (-5)) = "00-5".
Proof. repeat split. Qed.

(** ** Formatting and looking up codes *)

(** C6. The formatting of line 79 right-justifies the code to width 3 with
    zeros in front and then keeps the last 3 characters: a shorter code is
    zero-padded on the left, a longer one loses its leading characters, and
    the result always has 3 characters. The value 1 formats to 001 and the
    value 1234 to 234, given as a string or as an integer. *)
Theorem format_code_spec (code : Py.value) :
  let s := Py.str code in
  format_code code
  = Py.repeat_char "0" (3 - Py.len s) +:+ Py.drop (Py.len s - 3) s
  ∧ Py.len (format_code code) = 3
  ∧ format_code (Py.VStr "1") = "001"
  ∧ format_code (Py.VInt 1) = "001"
  ∧ format_code (Py.VStr "1234") = "234"
  ∧ format_code (Py.VInt 1234) = "234".
Proof.
  intros s. split; [apply last_chars_rjust|].
  split; [apply len_last_chars_rjust|]. by repeat split.
Qed.

Lemma TEXT_TO_NUMERIC_ERROR_keys_NoDup :
  NoDup TEXT_TO_NUMERIC_ERROR_items.*1.
Proof. by apply (bool_decide_unpack _). Qed.

Lemma TEXT_TO_NUMERIC_ERROR_codes :
  Forall (λ kv, Py.len kv.2 = 3) TEXT_TO_NUMERIC_ERROR_items.
Proof. by apply (bool_decide_unpack _). Qed.

Lemma lower_char_idemp (c : ascii) :
  Py.lower_char (Py.lower_char c) = Py.lower_char c.
Proof. by destruct c as [[] [] [] [] [] [] [] []]. Qed.

Lemma lower_upper_ascii_char (c : ascii) :
  Py.lower_char (Py.upper_ascii_char c) = Py.lower_char c.
Proof. by destruct c as [[] [] [] [] [] [] [] []]. Qed.

Lemma lower_idemp (s : string) : Py.lower (Py.lower s) = Py.lower s.
Proof.
  induction s as [|c s IH]; [done|].
  unfold Py.lower in *. simpl. by rewrite lower_char_idemp, IH.
Qed.

Lemma lower_upper_ascii (s : string) :
  Py.lower (Py.upper_ascii s) = Py.lower s.
Proof.
  induction s as [|c s IH]; [done|].
  unfold Py.lower, Py.upper_ascii in *. simpl.
  by rewrite lower_upper_ascii_char, IH.
Qed.

Lemma lookup_code_len (code_text : string) : Py.len (lookup_code code_text) = 3.
Proof.
  unfold lookup_code, TEXT_TO_NUMERIC_ERROR.
  destruct (list_to_map _ !! _) as [code|] eqn:Hl; [|done].
  apply elem_of_list_to_map_2 in Hl.
  pose proof TEXT_TO_NUMERIC_ERROR_codes as Hall.
  rewrite Forall_forall in Hall. apply (Hall _ Hl).
Qed.

(** C4. The lookup of line 78 lower-cases the identifier; when the
    lower-cased form is a key of the table it returns the code stored for
    it, and otherwise 999. The result has 3 characters, and it does not
    depend on the case of the identifier. LIDAR_FAIL gives 201 and unknown_x
    gives 999. *)
Theorem lookup_code_spec (code_text : string) :
  (∀ code, (Py.lower code_text, code) ∈ TEXT_TO_NUMERIC_ERROR_items →
           lookup_code code_text = code)
  ∧ (Py.lower code_text ∉ TEXT_TO_NUMERIC_ERROR_items.*1 →
     lookup_code code_text = "999")
  ∧ Py.len (lookup_code code_text) = 3
  ∧ lookup_code (Py.lower code_text) = lookup_code code_text
  ∧ lookup_code (Py.upper_ascii code_text) = lookup_code code_text
  ∧ lookup_code "LIDAR_FAIL" = "201"
  ∧ lookup_code "unknown_x" = "999".
Proof.
  split; [|split; [|split; [|split; [|split; [|split]]]]].
  - intros code Hin. unfold lookup_code, TEXT_TO_NUMERIC_ERROR.
    rewrite (elem_of_list_to_map_1 _ _ _ TEXT_TO_NUMERIC_ERROR_keys_NoDup Hin).
    done.
  - intros Hnot. unfold lookup_code, TEXT_TO_NUMERIC_ERROR.
    by rewrite (not_elem_of_list_to_map_1 _ _ Hnot).
  - apply lookup_code_len.
  - unfold lookup_code. by rewrite lower_idemp.
  - unfold lookup_code. by rewrite lower_upper_ascii.
  - reflexivity.
  - reflexivity.
Qed.

(** ** The heap of list objects *)

Lemma list_new_fresh (xs : list string) (h : heap) :
  h !! (list_new xs h).1 = None.
Proof. apply not_elem_of_dom, is_fresh. Qed.

Lemma list_new_lookup (xs : list string) (h : heap) :
  (list_new xs h).2 !! (list_new xs h).1 = Some xs.
Proof. apply lookup_insert_eq. Qed.

(** Allocation leaves every existing list object as it was. *)
Lemma list_new_subseteq (xs : list string) (h : heap) :
  h ⊆ (list_new xs h).2.
Proof. apply insert_subseteq, (list_new_fresh xs). Qed.

Lemma list_new_lookup_inv (xs ys : list string) (h : heap) (l : loc) :
  (list_new xs h).2 !! l = Some ys → ys = xs ∨ h !! l = Some ys.
Proof.
  unfold list_new. simpl. intros Hl.
  apply lookup_insert_Some in Hl as [[_ ->]|[_ Hl]]; auto.
Qed.

Lemma deref_subseteq (h h' : heap) (l : loc) :
  h ⊆ h' → is_Some (h !! l) → deref h' l = deref h l.
Proof.
  intros Hsub [xs Hl]. unfold deref.
  by rewrite Hl, (lookup_weaken _ _ _ _ Hl Hsub).
Qed.

Lemma is_Some_subseteq (h h' : heap) (l : loc) :
  h ⊆ h' → is_Some (h !! l) → is_Some (h' !! l).
Proof. intros Hsub [xs Hl]. exists xs. by eapply lookup_weaken. Qed.

(** ** The count digit *)

Lemma str_nonempty (v : Py.value) :
  (∀ s, v = Py.VStr s → s ≠ "") → Py.str v ≠ "".
Proof.
  destruct v as [s|z]; simpl; [intros H; by apply H|intros _].
  destruct (Z.to_int z) as [d|d]; simpl; [|done].
  destruct d; simpl; done.
Qed.

Lemma len_take_1 (s : string) : s ≠ "" → Py.len (Py.take 1 s) = 1.
Proof. destruct s; [done|]. done. Qed.

(** Line 69 always yields one character: [str] of an integer is never
    empty. *)
Lemma len_count_digit (xs : list string) : Py.len (count_digit xs) = 1.
Proof.
  unfold count_digit. apply len_take_1, str_nonempty. intros s Hs.
  discriminate Hs.
Qed.

(** Text of exactly four characters goes through [print] unchanged. *)
Lemma print_text_exact (s : string) :
  Py.len s = 4 → print_text (Py.VStr s) = s.
Proof.
  intros Hs. unfold print_text. simpl.
  rewrite rjust_exact by lia. by apply last_chars_exact.
Qed.

Lemma len_frame_text (num_errors tail : string) :
  Py.len num_errors = 1 → Py.len tail = 3 →
  Py.len (num_errors +:+ tail) = 4.
Proof. intros H1 H3. rewrite len_app. lia. Qed.

(** ** Rendering calls *)

Lemma show_no_errors_spec (d : Seg7x4) :
  Seg7x4_ok d →
  ∃ d', show_no_errors d = Some d'
        ∧ Seg7x4_ok d'
        ∧ shown d' = glyph <$> chars "0000"
        ∧ _colon d' = false ∧ colon_fill d' = gray20.
Proof.
  intros Hd. unfold show_no_errors.
  destruct (print_spec (Py.VStr "0000") d Hd) as (d' & -> & Hok & Hs & _).
  simpl. eexists. split; [done|]. split; [by apply set_colon_ok|].
  split; [|done]. exact Hs.
Qed.

Lemma frames_snoc (fs : list (string * option Q)) (evs : list event)
    (text : string) (secs : option Q) :
  evs = fs ≫= frame_calls →
  evs ++ frame_calls (text, secs) = (fs ++ [(text, secs)]) ≫= frame_calls.
Proof.
  intros ->. rewrite bind_app. f_equal. simpl. by rewrite app_nil_r.
Qed.

Lemma list_new_spec (xs : list string) (h h' : heap) (l : loc) :
  list_new xs h = (l, h') →
  h !! l = None ∧ h ⊆ h' ∧ h' !! l = Some xs
  ∧ ∀ l' ys, h' !! l' = Some ys → ys = xs ∨ h !! l' = Some ys.
Proof.
  intros Heq.
  pose proof (list_new_fresh xs h) as Hf.
  pose proof (list_new_subseteq xs h) as Hs.
  pose proof (list_new_lookup xs h) as Hl.
  rewrite Heq in Hf, Hs, Hl. simpl in Hf, Hs, Hl.
  repeat split; try done.
  intros l' ys Hys. pose proof (list_new_lookup_inv xs ys h l') as Hi.
  rewrite Heq in Hi. by apply Hi.
Qed.

(** ** Invariants of the node *)

Lemma node_inv_init : node_inv Node_init.
Proof.
  split; simpl; try done.
  - apply Seg7x4_init_ok.
  - by exists [].
  - tauto.
  - intros _. split; [done|]. intros l xs Hl.
    apply lookup_insert_Some in Hl as [[_ <-]|[_ Hl]]; [done|].
    by rewrite lookup_empty in Hl.
Qed.

Ltac inv_fields H :=
  destruct H as [Hdisp [Hcol Hfill] [fs Hcalls] Hact Hsnap Hlis Hnum
                 [Halive Hmalive] Hlock Hmutex Hmain].

Lemma display_step_inv (σ σ' : Node) :
  node_inv σ → display_step σ = Some σ' → node_inv σ'.
Proof.
  intros Hinv Hstep. inv_fields Hinv. unfold display_step in Hstep.
  destruct (display_thread σ) as [| |e|e|e num i|] eqn:Hpc.
  - (* DAcquire *)
    destruct (lock σ) eqn:Hl; [done|]. injection Hstep as <-.
    simpl in Hlock. symmetry in Hlock.
    split; simpl; rewrite ?Hpc; simpl; eauto; try done.
    rewrite Hlock. intros [_ []].
  - (* DCopy *)
    destruct (list_copy _ _) as [l h] eqn:Hcopy. injection Hstep as <-.
    apply list_new_spec in Hcopy as (_ & Hsub & Hl & Hold).
    split; simpl; eauto using is_Some_subseteq; try done.
    + intros e [= <-]. by eexists.
    + intros Hm. destruct (Hmain Hm) as [Hli Hall]. split; [done|].
      intros l' xs Hl'. apply Hold in Hl' as [->|Hl']; [|by eapply Hall].
      destruct Hact as [ys Hys]. unfold deref. rewrite Hys. simpl. by eapply Hall.
  - (* DRelease *)
    injection Hstep as <-. simpl in Hmutex.
    assert (Hll : listener_in_lock (listener σ) = false).
    { destruct (listener_in_lock (listener σ)); [|done]. by destruct Hmutex. }
    split; simpl; rewrite ?Hpc; simpl; eauto; try done.
    rewrite Hll. intros [[] _].
  - (* DTest *)
    simpl in Hstep.
    destruct (deref (store σ) e) as [|x xs] eqn:Hxs.
    + destruct (show_no_errors_spec _ Hdisp) as (d' & Hshow & Hok & _ & Hc & Hf).
      rewrite Hshow in Hstep. injection Hstep as <-.
      split; simpl; rewrite ?Hpc; simpl; eauto; try done.
      eexists. by apply (frames_snoc fs _ "0000" (Some error_delay)).
    + destruct (print_spec (Py.VStr (count_digit (x :: xs) +:+ loop_start_code))
                  _ Hdisp) as (d' & Hp & Hok & _ & Hc & Hf).
      rewrite Hp in Hstep. injection Hstep as <-.
      split; simpl; rewrite ?Hpc; simpl; eauto; try done.
      * eexists. by apply (frames_snoc fs _ _ (Some loop_start_delay)).
      * intros e' num i [= <- <- <-]. by rewrite Hxs.
  - (* DFor *)
    destruct (deref (store σ) e !! i) as [code_text|] eqn:Hi.
    + destruct (print_spec
                  (Py.VStr (num +:+ format_code (Py.VStr (lookup_code code_text))))
                  _ Hdisp) as (d' & Hp & Hok & _ & Hc & Hf).
      rewrite Hp in Hstep. injection Hstep as <-.
      split; simpl; rewrite ?Hpc; simpl; eauto; try done.
      * eexists. by apply (frames_snoc fs _ _ (Some error_delay)).
      * intros e' num' i' [= <- <- <-]. by eapply Hnum.
    + injection Hstep as <-.
      split; simpl; rewrite ?Hpc; simpl; eauto; try done.
  - done.
Qed.

Lemma deliver_inv (data : string) (σ σ' : Node) :
  node_inv σ → deliver data σ = Some σ' → node_inv σ'.
Proof.
  intros Hinv Hstep. inv_fields Hinv. unfold deliver in Hstep.
  destruct (main_thread σ) eqn:Hm; try done.
  destruct (listener σ) eqn:Hli; try done.
  destruct (list_new _ _) as [l h] eqn:Hnew. injection Hstep as <-.
  apply list_new_spec in Hnew as (_ & Hsub & Hl & Hold).
  split; simpl; rewrite ?Hm, ?Hli; simpl; eauto using is_Some_subseteq; try done.
  - intros e [= <-]. by eexists.
  - intros e num i Hpc. destruct (Hnum e num i Hpc) as [Hne Hn].
    rewrite (deref_subseteq _ _ _ Hsub); [done|].
    apply Hsnap. by rewrite Hpc.
Qed.

Lemma listener_step_inv (σ σ' : Node) :
  node_inv σ → listener_step σ = Some σ' → node_inv σ'.
Proof.
  intros Hinv Hstep. inv_fields Hinv. unfold listener_step in Hstep.
  destruct (listener σ) as [|e|e|] eqn:Hli; [done| | |].
  - (* LAcquire *)
    destruct (lock σ) eqn:Hl; [done|]. injection Hstep as <-.
    simpl in Hlock. symmetry in Hlock. rewrite orb_false_r in Hlock.
    split; simpl; rewrite ?Hli; simpl; eauto; try done.
    + by rewrite Hlock.
    + rewrite Hlock. by intros [? ?].
    + intros Hm. by destruct (Hmain Hm).
  - (* LAssign *)
    destruct (list_copy _ _) as [l h] eqn:Hcopy. injection Hstep as <-.
    apply list_new_spec in Hcopy as (_ & Hsub & Hl & Hold).
    split; simpl; rewrite ?Hli; simpl; eauto using is_Some_subseteq; try done.
    + intros e' num i Hpc. destruct (Hnum e' num i Hpc) as [Hne Hn].
      rewrite (deref_subseteq _ _ _ Hsub); [done|].
      apply Hsnap. by rewrite Hpc.
    + intros Hm. by destruct (Hmain Hm).
  - (* LRelease *)
    injection Hstep as <-. simpl in Hmutex.
    assert (Hdl : display_in_lock (display_thread σ) = false).
    { destruct (display_in_lock (display_thread σ)); [|done]. by destruct Hmutex. }
    split; simpl; rewrite ?Hli; simpl; eauto; try done.
    + by rewrite Hdl.
    + intros [_ []].
    + intros Hm. by destruct (Hmain Hm).
Qed.

Lemma main_step_inv (σ σ' : Node) :
  node_inv σ → main_step σ = Some σ' → node_inv σ'.
Proof.
  intros Hinv Hstep. inv_fields Hinv. unfold main_step in Hstep.
  destruct (main_thread σ) eqn:Hm; try done.
  destruct (show_no_errors_spec _ Hdisp) as (d' & Hshow & Hok & _ & Hc & Hf).
  rewrite Hshow in Hstep. injection Hstep as <-.
  split; simpl; eauto; try done.
  eexists. by apply (frames_snoc fs _ "0000" None).
Qed.

Lemma step_inv (a : label) (σ σ' : Node) :
  node_inv σ → step a σ = Some σ' → node_inv σ'.
Proof.
  destruct a; simpl;
    eauto using main_step_inv, display_step_inv, deliver_inv, listener_step_inv.
Qed.

Lemma run_inv (sched : list label) (σ σ' : Node) :
  node_inv σ → run sched σ = Some σ' → node_inv σ'.
Proof.
  revert σ. induction sched as [|a sched IH]; intros σ Hinv Hrun; simpl in Hrun.
  - by injection Hrun as <-.
  - destruct (step a σ) as [σ1|] eqn:Hstep; [|done]. simpl in Hrun.
    eauto using step_inv.
Qed.

Lemma reachable_inv (σ : Node) : reachable σ → node_inv σ.
Proof. intros [sched Hrun]. eapply run_inv; [apply node_inv_init|done]. Qed.

(** * Further properties of the code *)

(** ** The digits *)

(** X1. [SevenSegDigit.set_char] repaints every segment: whatever the digit
    showed before, afterwards it shows exactly the glyph of the new
    character, and the decimal point follows [show_dp]. *)
Theorem set_char_overwrites (c1 c2 : ascii) (b1 b2 : bool) (d : SevenSegDigit) :
  digit_ok d →
  lit_segments (set_char c2 b2 (set_char c1 b1 d)) = glyph c2
  ∧ lit_segments (set_char c2 b2 d) = glyph c2
  ∧ dp (set_char c2 b2 (set_char c1 b1 d)) = (if b2 then red else gray20).
Proof.
  intros Hd. split; [|split; [|done]].
  - apply lit_segments_set_char. by apply set_char_ok.
  - by apply lit_segments_set_char.
Qed.

Lemma set_char_overwrites_witness :
  digit_ok SevenSegDigit_init
  ∧ lit_segments (set_char "1" false (set_char "8" true SevenSegDigit_init))
    = glyph "1"
  ∧ lit_segments (set_char "1" false SevenSegDigit_init) = glyph "1"
  ∧ dp (set_char "1" false (set_char "8" true SevenSegDigit_init)) = gray20.
Proof.
  split; [exact SevenSegDigit_init_ok|].
  exact (set_char_overwrites "8" "1" true false _ SevenSegDigit_init_ok).
Defined.

(** X2. A character that [DIGITS] does not know blanks the digit:
    [DIGITS.get(char, "")] lights no segment, and nothing is raised. *)
Theorem set_char_unknown_blank (ch : ascii) (b : bool) (d : SevenSegDigit) :
  digit_ok d → DIGITS !! ch = None →
  lit_segments (set_char ch b d) = [].
Proof.
  intros Hd Hch. rewrite lit_segments_set_char by done.
  unfold glyph. rewrite Hch. simpl. done.
Qed.

Lemma set_char_unknown_blank_witness :
  digit_ok SevenSegDigit_init ∧ DIGITS !! "E"%char = None
  ∧ lit_segments (set_char "E" false SevenSegDigit_init) = [].
Proof.
  split; [exact SevenSegDigit_init_ok|]. split; [reflexivity|].
  exact (set_char_unknown_blank "E" false _ SevenSegDigit_init_ok eq_refl).
Defined.

Lemma DIGITS_keys (ch : ascii) :
  is_Some (DIGITS !! ch) →
  ch ∈ ["0"; "1"; "2"; "3"; "4"; "5"; "6"; "7"; "8"; "9"; " "; "-"]%char.
Proof.
  intros [active H].
  destruct ch as [[] [] [] [] [] [] [] []]; vm_compute in H;
    try discriminate H; by apply (bool_decide_unpack _).
Qed.

(** X3. No two characters of [DIGITS] look the same: each of the twelve
    has its own set of lit segments. *)
Theorem DIGITS_glyphs_distinct (c1 c2 : ascii) :
  is_Some (DIGITS !! c1) → is_Some (DIGITS !! c2) →
  glyph c1 = glyph c2 → c1 = c2.
Proof.
  intros H1%DIGITS_keys H2%DIGITS_keys.
  repeat (apply elem_of_cons in H1 as [->|H1]);
    try (by apply elem_of_nil in H1);
    repeat (apply elem_of_cons in H2 as [->|H2]);
    try (by apply elem_of_nil in H2);
    intros Hg; try reflexivity; vm_compute in Hg; discriminate Hg.
Qed.

Lemma DIGITS_glyphs_distinct_witness :
  is_Some (DIGITS !! "5"%char) ∧ glyph "5" = glyph "5" ∧ "5"%char = "5"%char.
Proof.
  split; [by eexists|]. split; [reflexivity|].
  apply (DIGITS_glyphs_distinct "5" "5"); [by eexists|by eexists|reflexivity].
Defined.

Lemma char_in_elem_of (name : ascii) (active : string) :
  char_in name active = true ↔ name ∈ chars active.
Proof.
  induction active as [|c rest IH]; simpl.
  - split; [done|]. by intros ?%elem_of_nil.
  - rewrite orb_true_iff, IH, bool_decide_eq_true. unfold chars. simpl.
    rewrite elem_of_cons. split; intros [->|?]; auto.
Qed.

(** X4. Every segment a [DIGITS] entry names is one of the seven polygons
    of [SEGMENTS], so [set_char] lights all of them: a name is in the entry
    exactly when its segment is lit. *)
Theorem DIGITS_segments_exist (ch name : ascii) (active : string) :
  DIGITS !! ch = Some active →
  (char_in name active = true ↔ name ∈ glyph ch).
Proof.
  intros Hch. unfold glyph. rewrite Hch. simpl.
  rewrite list_elem_of_filter, Is_true_true.
  split; [|tauto]. intros Hin. split; [done|].
  apply char_in_elem_of in Hin.
  destruct ch as [[] [] [] [] [] [] [] []]; vm_compute in Hch;
    try discriminate Hch; injection Hch as <-;
    unfold chars in Hin; simpl in Hin;
    repeat (apply elem_of_cons in Hin as [->|Hin]);
    try (by apply elem_of_nil in Hin);
    by apply (bool_decide_unpack _).
Qed.

Lemma DIGITS_segments_exist_witness :
  DIGITS !! "7"%char = Some "abc"
  ∧ (char_in "b" "abc" = true ↔ "b"%char ∈ glyph "7").
Proof.
  split; [reflexivity|].
  exact (DIGITS_segments_exist "7" "b" "abc" eq_refl).
Defined.

(** ** Bounds of [Seg7x4.print] *)

Lemma print_loop_out_of_range (text : string) :
  ∀ (i : nat) (ds : list SevenSegDigit),
    i ≤ length ds → length ds < i + Py.len text →
    print_loop i text ds = None.
Proof.
  induction text as [|ch rest IH]; intros i ds Hi Hlen; simpl in *; [lia|].
  destruct (ds !! i) as [d|] eqn:Hd; [|done]. simpl.
  apply lookup_lt_Some in Hd.
  apply IH; rewrite length_insert; lia.
Qed.

(** X5. [Seg7x4.print] always writes four characters, so on a display
    with fewer than four digits [self.digits[i]] runs out of range and the
    call raises, whatever the text. *)
Theorem print_short_display_raises (text : Py.value) (d : Seg7x4) :
  length (digits d) < 4 → print text d = None.
Proof.
  intros Hlen. unfold print.
  rewrite print_loop_out_of_range; [done|lia|].
  unfold print_text. rewrite len_last_chars_rjust. lia.
Qed.

Lemma print_short_display_raises_witness :
  let d := {| digits := replicate 3 SevenSegDigit_init;
              colon_fill := gray20; _colon := false |} in
  length (digits d) < 4 ∧ print (Py.VStr "0000") d = None.
Proof.
  split; [simpl; lia|].
  apply print_short_display_raises. simpl. lia.
Defined.

(** ** The node's threads *)

(** X6. The two [with self.lock] blocks exclude each other: in no state
    the node can reach are the display thread and the callback both inside
    their block, and the lock is held exactly when one of them is. *)
Theorem lock_mutual_exclusion (sched : list label) (σ : Node) :
  run sched Node_init = Some σ →
  ¬ (display_in_lock (display_thread σ) ∧ listener_in_lock (listener σ))
  ∧ lock σ = display_in_lock (display_thread σ)
             || listener_in_lock (listener σ).
Proof.
  intros Hrun. assert (Hinv : node_inv σ) by (apply reachable_inv; by exists sched).
  split; [apply Hinv|apply Hinv].
Qed.

Lemma lock_mutual_exclusion_witness :
  let sched := [Main; Deliver "gps_fail"; Listener; Listener] in
  let σ := default Node_init (run sched Node_init) in
  run sched Node_init = Some σ
  ∧ lock σ = true
  ∧ ¬ (display_in_lock (display_thread σ) ∧ listener_in_lock (listener σ)).
Proof.
  intros sched σ.
  assert (Hrun : run sched Node_init = Some σ) by (vm_compute; reflexivity).
  split; [exact Hrun|]. split; [vm_compute; reflexivity|].
  apply (lock_mutual_exclusion sched σ Hrun).
Defined.

(** X7. Neither [display_loop] nor [__init__] ever dies on an exception:
    every [display.print] they make finds four digits, so no state the node
    can reach has a raised thread. *)
Theorem threads_never_raise (sched : list label) (σ : Node) :
  run sched Node_init = Some σ →
  display_thread σ ≠ DRaised ∧ main_thread σ ≠ MRaised
  ∧ Seg7x4_ok (display σ).
Proof.
  intros Hrun. assert (Hinv : node_inv σ) by (apply reachable_inv; by exists sched).
  split; [apply Hinv|split; apply Hinv].
Qed.

Lemma threads_never_raise_witness :
  let sched := [Display; Display; Display; Display; Main] in
  let σ := default Node_init (run sched Node_init) in
  run sched Node_init = Some σ
  ∧ display_thread σ ≠ DRaised ∧ main_thread σ ≠ MRaised
  ∧ Seg7x4_ok (display σ).
Proof.
  intros sched σ.
  assert (Hrun : run sched Node_init = Some σ) by (vm_compute; reflexivity).
  split; [exact Hrun|]. apply (threads_never_raise sched σ Hrun).
Defined.

Lemma display_step_enabled (σ : Node) :
  node_inv σ →
  is_Some (display_step σ)
  ∨ (display_thread σ = DAcquire ∧ lock σ = true).
Proof.
  intros Hinv. unfold display_step.
  destruct (display_thread σ) as [| |e|e|e num i|] eqn:Hpc.
  - destruct (lock σ); [by right|by left].
  - left. by destruct (list_copy _ _).
  - by left.
  - left. simpl. destruct (deref _ _).
    + by destruct (show_no_errors _).
    + by destruct (print _ _).
  - left. destruct (_ !! i); [by destruct (print _ _)|done].
  - by destruct (inv_alive σ Hinv) as [? _].
Qed.

(** X8. The node cannot deadlock. In every state it can reach the display
    thread can take its next action, except when it waits at line 60 for the
    lock; then the callback is inside its [with] block and can take its next
    action. *)
Theorem no_deadlock (sched : list label) (σ : Node) :
  run sched Node_init = Some σ →
  is_Some (step Display σ)
  ∨ (display_thread σ = DAcquire ∧ listener_in_lock (listener σ)
     ∧ is_Some (step Listener σ)).
Proof.
  intros Hrun. assert (Hinv : node_inv σ) by (apply reachable_inv; by exists sched).
  destruct (display_step_enabled σ Hinv) as [?|[Hpc Hl]]; [by left|right].
  pose proof (inv_lock σ Hinv) as Hlock. rewrite Hpc, Hl in Hlock. simpl in Hlock.
  split; [done|]. split; [by rewrite <- Hlock|].
  simpl. unfold listener_step.
  destruct (listener σ); done.
Qed.

Lemma no_deadlock_witness :
  let sched := [Main; Deliver "gps_fail"; Listener] in
  let σ := default Node_init (run sched Node_init) in
  run sched Node_init = Some σ
  ∧ step Display σ = None
  ∧ (is_Some (step Display σ)
     ∨ (display_thread σ = DAcquire ∧ listener_in_lock (listener σ)
        ∧ is_Some (step Listener σ))).
Proof.
  intros sched σ.
  assert (Hrun : run sched Node_init = Some σ) by (vm_compute; reflexivity).
  split; [exact Hrun|]. split; [vm_compute; reflexivity|].
  apply (no_deadlock sched σ Hrun).
Defined.

Lemma step_store_mono (a : label) (σ σ' : Node) :
  step a σ = Some σ' → store σ ⊆ store σ'.
Proof.
  destruct a as [| |data|]; simpl.
  - unfold main_step. destruct (main_thread σ); try done.
    destruct (show_no_errors _); intros [= <-]; done.
  - unfold display_step.
    destruct (display_thread σ) as [| |e|e|e num i|]; try done.
    + destruct (lock σ); [done|]. by intros [= <-].
    + destruct (list_copy _ _) as [l h] eqn:Hc. intros [= <-]. simpl.
      by apply list_new_spec in Hc as (_ & ? & _).
    + by intros [= <-].
    + simpl. destruct (deref _ _).
      * destruct (show_no_errors _); by intros [= <-].
      * destruct (print _ _); by intros [= <-].
    + destruct (_ !! i); [|by intros [= <-]].
      destruct (print _ _); by intros [= <-].
  - unfold deliver. destruct (main_thread σ); try done.
    destruct (listener σ); try done.
    destruct (list_new _ _) as [l h] eqn:Hc. intros [= <-]. simpl.
    by apply list_new_spec in Hc as (_ & ? & _).
  - unfold listener_step. destruct (listener σ) as [|e|e|]; try done.
    + destruct (lock σ); [done|]. by intros [= <-].
    + destruct (list_copy _ _) as [l h] eqn:Hc. intros [= <-]. simpl.
      by apply list_new_spec in Hc as (_ & ? & _).
    + by intros [= <-].
Qed.

(** X9. A list object, once created, never changes and never goes away:
    the callback rebinds [self.active_errors] to a new copy and the display
    thread only reads its own copy, so along every schedule each existing
    list keeps its elements. *)
Theorem lists_never_mutated (sched : list label) (σ σ' : Node)
    (l : loc) (xs : list string) :
  run sched σ = Some σ' → store σ !! l = Some xs → store σ' !! l = Some xs.
Proof.
  revert σ. induction sched as [|a sched IH]; intros σ Hrun Hl; simpl in Hrun.
  - by injection Hrun as <-.
  - destruct (step a σ) as [σ1|] eqn:Hstep; [|done]. simpl in Hrun.
    apply (IH σ1 Hrun). eapply lookup_weaken; [exact Hl|].
    by eapply step_store_mono.
Qed.

Lemma lists_never_mutated_witness :
  let sched := [Main; Deliver "gps_fail"; Listener; Listener; Listener;
                Display; Display] in
  let σ := default Node_init (run sched Node_init) in
  run sched Node_init = Some σ
  ∧ store Node_init !! active_errors Node_init = Some []
  ∧ active_errors σ ≠ active_errors Node_init
  ∧ store σ !! active_errors Node_init = Some [].
Proof.
  intros sched σ.
  assert (Hrun : run sched Node_init = Some σ) by (vm_compute; reflexivity).
  split; [exact Hrun|]. split; [vm_compute; reflexivity|].
  split; [vm_compute; discriminate|].
  apply (lists_never_mutated sched Node_init σ _ [] Hrun).
  vm_compute; reflexivity.
Defined.
